(** * DetectLight: per-frame percentile pixel values of .mp4 files

    A shallow embedding of [detectlight.py].  The script has four functions:
    [identify_files] (glob a folder for [*.mp4]), [get_frame_values] (one
    percentile per frame of every file), [plot_frame_values] (one figure and
    one .csv per file) and [main].

    The libraries the script calls are modelled by what they do to the
    values the script hands them:
    - [pathlib.Path], [Path.glob], [Path.__truediv__] : [Path], [glob_mp4],
      [path_join], on POSIX paths written as strings;
    - [imageio.get_reader] / [iter_data]        : the [decoding] a world
      assigns to a path;
    - [numpy.percentile] (default method, "linear"): [np_percentile], in
      exact rational arithmetic instead of binary64;
    - [matplotlib] and [csv.writer]             : artifacts stored in the
      world under the file name they are saved to, when the directory of
      that name exists. *)

From Stdlib Require Import ZArith QArith Qround String Ascii List Lia Lqa.
From stdpp Require Import base tactics option list strings gmap sorting pretty.

Local Open Scope Z_scope.
Local Open Scope string_scope.
Local Open Scope list_scope.

(** ** Python values and exceptions *)

(** The exceptions that can travel through the script.  The script itself
    raises only through its [assert]; everything else comes out of numpy
    or out of the video reader and is never caught. *)
Inductive exn : Type :=
| AssertionError (msg : string)
| ValueError (msg : string)
| IndexError
| Foreign (cls : string).


Inductive outcome (A : Type) : Type :=
| Ret (a : A)
| Raise (e : exn).
Arguments Ret {A} a.
Arguments Raise {A} e.

(** A decoded frame: rows, columns, channels of integer intensities. *)
Definition frame : Type := list (list (list Z)).

(** What the ffmpeg reader makes of a path: it cannot be opened, or it
    yields frames in presentation order and then either ends or raises. *)
Inductive decoding : Type :=
| OpenFails (e : exn)
| Stream (frames : list frame) (tail : option exn).

(** A figure as [plot_frame_values] sets it up before saving it. *)
Record figure : Type := Figure {
  fig_ydata : list Q;
  fig_ylabel : string;
  fig_xlabel : string;
  fig_title : string;
  fig_hidden_spines : list string;
  fig_dpi : Z
}.

Inductive artifact : Type :=
| Png (fig : figure)
| Csv (text : string).

(** ** The world the script runs in *)

Record world : Type := World {
  (** the directories that exist when the script starts, each under the
      string of its path, with its entries in the order the operating
      system lists them *)
  w_scandir : gmap string (list string);
  (** the answer of [imageio.get_reader(fname, 'ffmpeg')] for every path *)
  w_ffmpeg : string -> decoding;
  (** files written by the script *)
  w_out : gmap string artifact;
  (** the paths [get_reader] was called on, oldest first *)
  w_reader_calls : list string;
  (** lines printed *)
  w_stdout : list string
}.

Definition log_reader_calls (fnames : list string) (w : world) : world :=
  World (w_scandir w) (w_ffmpeg w) (w_out w) (w_reader_calls w ++ fnames) (w_stdout w).

Definition save (name : string) (a : artifact) (w : world) : world :=
  World (w_scandir w) (w_ffmpeg w) (<[name := a]> (w_out w)) (w_reader_calls w) (w_stdout w).

Definition emit (line : string) (w : world) : world :=
  World (w_scandir w) (w_ffmpeg w) (w_out w) (w_reader_calls w) (w_stdout w ++ [line]).

(** Statements run in a world and either return or raise; a raise keeps
    the world as it was when the exception left. *)
Definition M (A : Type) : Type := world -> outcome A * world.

Definition ret {A} (a : A) : M A := fun w => (Ret a, w).
Definition raise {A} (e : exn) : M A := fun w => (Raise e, w).
Definition bind {A B} (m : M A) (k : A -> M B) : M B :=
  fun w => match m w with
           | (Ret a, w') => k a w'
           | (Raise e, w') => (Raise e, w')
           end.
Definition lift {A} (o : outcome A) : M A := fun w => (o, w).
Definition effect (f : world -> world) : M unit := fun w => (Ret tt, f w).

Notation "'let*' x ':=' m 'in' k" := (bind m (fun x => k))
  (at level 10, x pattern, m at level 100, k at level 200).
Notation "m ';;;' k" := (bind m (fun _ => k))
  (at level 100, k at level 200, right associativity).

(** ** pathlib and the file system *)

(** [str.endswith]. *)
Definition endswith (s suffix : string) : bool :=
  let n := String.length s in
  let k := String.length suffix in
  (k <=? n)%nat && String.eqb (substring (n - k) k s) suffix.

(** [fnmatch] of a name against the pattern [*.mp4]: any run of
    characters, then the literal [.mp4] (POSIX flavour, case-sensitive). *)
Definition fnmatch_star_mp4 (name : string) : bool := endswith name ".mp4".

Definition is_slash (c : ascii) : bool := Ascii.eqb c "/"%char.

Fixpoint has_slash (s : string) : bool :=
  match s with
  | EmptyString => false
  | String c s' => is_slash c || has_slash s'
  end.

Fixpoint all_slashes (s : string) : bool :=
  match s with
  | EmptyString => true
  | String c s' => is_slash c && all_slashes s'
  end.

(** [s.rstrip('/')]. *)
Fixpoint rstrip_slashes (s : string) : string :=
  match s with
  | EmptyString => EmptyString
  | String c s' => if all_slashes s then EmptyString else String c (rstrip_slashes s')
  end.

(** [s.split('/')], [part] being the component read so far. *)
Fixpoint split_slashes (s : string) (part : string) : list string :=
  match s with
  | EmptyString => [part]
  | String c s' =>
      if is_slash c then part :: split_slashes s' EmptyString
      else split_slashes s' (part +:+ String c EmptyString)
  end.

(** ['/'.join(parts)]. *)
Fixpoint join_slashes (parts : list string) : string :=
  match parts with
  | [] => EmptyString
  | [x] => x
  | x :: rest => x +:+ "/" +:+ join_slashes rest
  end.

(** The root of a POSIX path: [//] for exactly two leading slashes, [/]
    for one and for three or more, nothing for a relative path. *)
Definition posix_root (s : string) : string :=
  match s with
  | String a (String b (String c _)) =>
      if is_slash a && is_slash b then (if is_slash c then "/" else "//")
      else if is_slash a then "/" else EmptyString
  | String a (String b EmptyString) =>
      if is_slash a && is_slash b then "//"
      else if is_slash a then "/" else EmptyString
  | String a EmptyString => if is_slash a then "/" else EmptyString
  | EmptyString => EmptyString
  end.

Definition kept_component (c : string) : bool :=
  negb (String.eqb c EmptyString) && negb (String.eqb c ".").

(** [str(pathlib.Path(s))]: empty and [.] components dropped, slashes
    collapsed, the root kept, [.] for a path without root and components. *)
Definition Path (s : string) : string :=
  let root := posix_root s in
  let parts := filter (fun c => Is_true (kept_component c)) (split_slashes s EmptyString) in
  match root, parts with
  | EmptyString, [] => "."
  | _, _ => root +:+ join_slashes parts
  end.

(** [PurePath.is_absolute] on a POSIX path. *)
Definition is_absolute (p : string) : bool :=
  match p with
  | String "/"%char _ => true
  | _ => false
  end.

(** [str(p / child)] for a path [p] and a child that is a name or a path,
    both written as pathlib writes them: an absolute child replaces [p],
    the child of [.] is the child itself, and no slash is doubled after a
    root. *)
Definition path_join (p child : string) : string :=
  if is_absolute child then child
  else if String.eqb p EmptyString || String.eqb p "." then child
  else if endswith p "/" then p +:+ child
  else p +:+ "/" +:+ child.

(** What [os.scandir] yields for a directory: the names among its entries.
    A name is not empty, holds no slash, and is neither [.] nor [..]. *)
Definition is_name (n : string) : bool :=
  negb (String.eqb n EmptyString) && negb (has_slash n)
  && negb (String.eqb n ".") && negb (String.eqb n "..").

Definition scandir (p : string) (w : world) : option (list string) :=
  match w_scandir w !! p with
  | Some entries => Some (filter (fun n => Is_true (is_name n)) entries)
  | None => None
  end.

(** [path.glob('*.mp4')]: the matching names of [p], joined to [p], in
    listing order.  A path that is not an existing directory has nothing to
    list and the generator is empty. *)
Definition glob_mp4 (p : string) (w : world) : list string :=
  match scandir p w with
  | Some names => map (path_join p) (filter (fun n => Is_true (fnmatch_star_mp4 n)) names)
  | None => []
  end.

(** [os.path.dirname]: what stands before the last slash, without its
    trailing slashes unless it is made of slashes only. *)
Fixpoint upto_last_slash (s : string) : string :=
  match s with
  | EmptyString => EmptyString
  | String c s' => if has_slash s then String c (upto_last_slash s') else EmptyString
  end.

Definition dirname (s : string) : string :=
  let head := upto_last_slash s in
  if all_slashes head then head else rstrip_slashes head.

(** A file can be created under a name when the directory of the name
    exists; a name without directory is created in the working directory. *)
Definition creatable (w : world) (name : string) : bool :=
  String.eqb (dirname name) EmptyString
  || match w_scandir w !! dirname name with Some _ => true | None => false end.

(** [open(name, 'w')] and [plt.savefig(name)]: the file is created or
    replaced, or [FileNotFoundError] is raised where it cannot be. *)
Definition create (name : string) (a : artifact) : M unit :=
  fun w =>
    if creatable w name then (Ret tt, save name a w)
    else (Raise (Foreign "FileNotFoundError"), w).

(** ** identify_files *)

Definition identify_files (p : string) : M (list string * nat) :=
  fun w =>
    let video_files := glob_mp4 p w in
    let no_files := length video_files in
    (Ret (video_files, no_files), w).

(** ** numpy.percentile *)

(** [ndarray.ravel]: the samples of a frame, all axes flattened. *)
Definition ravel (a : frame) : list Z := concat (concat a).

(** numpy's [_lerp]: [a + (b - a) * t], computed from the other end when
    [t >= 0.5]. *)
Definition lerp (a b t : Q) : Q :=
  let diff_b_a := (b - a)%Q in
  if Qle_bool (1 # 2) t
  then (b - diff_b_a * (1 - t))%Q
  else (a + diff_b_a * t)%Q.

(** [np.percentile(a, q)] with the default method.  The percentile is
    checked first; the flattened samples are ordered (numpy partitions
    around the two indices it needs, which leaves there what a full sort
    leaves there); the virtual index is [(n - 1) * q / 100], the two
    neighbours are its floor and the next index clipped to [n - 1], and
    [gamma] is its fractional part.  Taking from an empty array raises
    [IndexError].  The value is kept in lowest terms. *)
Definition np_percentile (a : frame) (q : Z) : outcome Q :=
  if ((q <? 0) || (100 <? q))%Z
  then Raise (ValueError "Percentiles must be in the range [0, 100]")
  else
    let arr := merge_sort Z.le (ravel a) in
    let values_count := Z.of_nat (length arr) in
    if (values_count =? 0)%Z then Raise IndexError
    else
      let scaled := (values_count - 1) * q in
      let previous_index := scaled / 100 in
      let next_index := Z.min (previous_index + 1) (values_count - 1) in
      let gamma := Qmake (scaled mod 100) 100 in
      let previous := nth (Z.to_nat previous_index) arr 0 in
      let next := nth (Z.to_nat next_index) arr 0 in
      Ret (Qred (lerp (inject_Z previous) (inject_Z next) gamma)).

(** ** get_frame_values *)

(** What [type(video_files)] is. *)
Inductive py_type : Type :=
| TyList
| TyTuple
| TyGenerator
| TyOther (name : string).

(** An iterable of paths: its exact type and the items it yields. *)
Record py_iterable : Type := PyIterable {
  py_type_of : py_type;
  py_items : list string
}.

Definition py_list (items : list string) : py_iterable := PyIterable TyList items.

Definition is_list (t : py_type) : bool :=
  match t with TyList => true | _ => false end.

(** The dictionary built for every video. *)
Record value_dict : Type := ValueDict {
  fname : string;
  values : list Q;
  percentile : Z
}.

(** [imageio.get_reader(fname, 'ffmpeg')]. *)
Definition get_reader (fname : string) : M (list frame * option exn) :=
  fun w =>
    match w_ffmpeg w fname with
    | OpenFails e => (Raise e, log_reader_calls [fname] w)
    | Stream frames tail => (Ret (frames, tail), log_reader_calls [fname] w)
    end.

(** The inner loop, [for frame in vid.iter_data(): temp_video_data.append(...)]. *)
Fixpoint for_frame (frames : list frame) (tail : option exn) (percentile_value : Z)
    (temp_video_data : list Q) : outcome (list Q) :=
  match frames with
  | [] =>
      match tail with
      | None => Ret temp_video_data
      | Some e => Raise e
      end
  | frame :: frames' =>
      match np_percentile frame percentile_value with
      | Ret v => for_frame frames' tail percentile_value (temp_video_data ++ [v])
      | Raise e => Raise e
      end
  end.

(** The outer loop, [for fname in tqdm(video_files): ...]; [tqdm] only
    draws a progress bar and yields the items of the list in order. *)
Fixpoint for_fname (video_files : list string) (percentile_value : Z)
    (video_data : list value_dict) : M (list value_dict) :=
  match video_files with
  | [] => ret video_data
  | fname :: video_files' =>
      let* vid := get_reader fname in
      let* temp_video_data := lift (for_frame (fst vid) (snd vid) percentile_value []) in
      let value_dict := ValueDict fname temp_video_data percentile_value in
      for_fname video_files' percentile_value (video_data ++ [value_dict])
  end.

Definition get_frame_values (video_files : py_iterable) (percentile_value : Z)
    : M (list value_dict) :=
  if is_list (py_type_of video_files)
  then for_fname (py_items video_files) percentile_value []
  else raise (AssertionError "video_files is not a list").

(** What the two loops make of one file, as a function of the world:
    the series of its frame values, or the exception that ends the run. *)
Definition series_of (w : world) (percentile_value : Z) (fname : string) : outcome (list Q) :=
  match w_ffmpeg w fname with
  | OpenFails e => Raise e
  | Stream frames tail => for_frame frames tail percentile_value []
  end.

Definition returns {A} (o : outcome A) : bool :=
  match o with Ret _ => true | Raise _ => false end.

Definition result_or {A} (d : A) (o : outcome A) : A :=
  match o with Ret a => a | Raise _ => d end.

(** The dictionary the outer loop appends for a file that decodes. *)
Definition series_dict (w : world) (percentile_value : Z) (fname : string) : value_dict :=
  ValueDict fname (result_or [] (series_of w percentile_value fname)) percentile_value.

(** [np.min] and [np.max] of a flat array. *)
Definition amin (xs : list Z) : Z :=
  match xs with
  | [] => 0
  | x :: xs' => fold_left Z.min xs' x
  end.

Definition amax (xs : list Z) : Z :=
  match xs with
  | [] => 0
  | x :: xs' => fold_left Z.max xs' x
  end.

(** The samples [first, first + 1, ..., first + count - 1]. *)
Definition arange (first : Z) (count : nat) : list Z :=
  map (fun i => first + Z.of_nat i) (seq 0 count).

(** The order statistic at percentile [q] of an ordered array by the
    textbook rule: with [h = (n - 1) * q / 100], the value
    [x[floor h] + (h - floor h) * (x[ceil h] - x[floor h])]. *)
Definition interpolated_order_statistic (ordered : list Z) (q : Z) : Q :=
  let n := Z.of_nat (length ordered) in
  let h := Qmake ((n - 1) * q) 100 in
  let x_floor := inject_Z (nth (Z.to_nat (Qfloor h)) ordered 0) in
  let x_ceil := inject_Z (nth (Z.to_nat (Qceiling h)) ordered 0) in
  (x_floor + (h - inject_Z (Qfloor h)) * (x_ceil - x_floor))%Q.

(** ** plot_frame_values *)

(** [str] of a frame value and its inverse [float], as a Python runtime
    provides them. *)
Class FloatText : Type := {
  py_str : Q -> string;
  py_float : string -> option Q
}.

Definition CR : ascii := "013"%char.
Definition LF : ascii := "010"%char.
Definition DQUOTE : ascii := "034"%char.
Definition COMMA : ascii := ","%char.
Definition CRLF : string := String CR (String LF EmptyString).

Definition csv_special (c : ascii) : bool :=
  Ascii.eqb c COMMA || Ascii.eqb c DQUOTE || Ascii.eqb c CR || Ascii.eqb c LF.

Fixpoint has_special (s : string) : bool :=
  match s with
  | EmptyString => false
  | String c s' => csv_special c || has_special s'
  end.

Fixpoint double_quotes (s : string) : string :=
  match s with
  | EmptyString => EmptyString
  | String c s' =>
      if Ascii.eqb c DQUOTE then String c (String c (double_quotes s'))
      else String c (double_quotes s')
  end.

(** A field as [csv.writer] writes it (excel dialect, minimal quoting). *)
Definition csv_field (s : string) : string :=
  if has_special s || String.eqb s EmptyString
  then String DQUOTE (double_quotes s) +:+ String DQUOTE EmptyString
  else s.

(** [writer.writerow([value])]: one field and the line terminator. *)
Definition writerow `{FloatText} (value : Q) : string :=
  csv_field (py_str value) +:+ CRLF.

(** [for value in video_dict["values"]: writer.writerow([value])] on a
    file opened for writing. *)
Fixpoint for_value `{FloatText} (vs : list Q) (csvfile : string) : string :=
  match vs with
  | [] => csvfile
  | value :: vs' => for_value vs' (csvfile +:+ writerow value)
  end.

Definition artifact_stem (d : value_dict) : string :=
  fname d +:+ "_" +:+ pretty (percentile d).

Definition png_name (d : value_dict) : string := artifact_stem d +:+ ".png".
Definition csv_name (d : value_dict) : string := artifact_stem d +:+ ".csv".

Definition make_figure (d : value_dict) : figure :=
  Figure (values d)
         (pretty (percentile d) +:+ "th percentile pixel intensity (AU)")
         "Frame number"
         (fname d)
         ["top"; "right"]
         300.

(** One turn of [for video_dict in video_data]. *)
Definition plot_one `{FloatText} (p : string) (video_dict : value_dict) : M unit :=
  create (path_join p (png_name video_dict)) (Png (make_figure video_dict));;;
  create (csv_name video_dict) (Csv (for_value (values video_dict) EmptyString)).

Fixpoint plot_frame_values `{FloatText} (p : string) (video_data : list value_dict) : M unit :=
  match video_data with
  | [] => ret tt
  | video_dict :: video_data' =>
      plot_one p video_dict;;;
      plot_frame_values p video_data'
  end.

(** ** main *)

Definition main `{FloatText} (initial_path : string) (percentile : Z) : M unit :=
  let initial_path :=
    if String.eqb initial_path EmptyString
    then "C:\Users\rjaco\Desktop\test"
    else initial_path in
  let p := Path initial_path in
  effect (emit EmptyString);;;
  effect (emit "Running...");;;
  let* found := identify_files p in
  let* video_data := get_frame_values (py_list (fst found)) percentile in
  plot_frame_values p video_data;;;
  effect (emit EmptyString);;;
  effect (emit "Finished!").

(** ** Reading a written .csv back *)





(** The text of a value with at most two decimals, as Python writes the
    float nearest to it below 1e16 (the shortest decimal that names it, with
    at least one digit after the point: 7.0, 8.9, 95.05), and the parser of
    such texts: an instance of [FloatText] that is exact on hundredths. *)
Definition digit (n : Z) : ascii := ascii_of_nat (48 + Z.to_nat n).

Definition decimal2 (v : Q) : string :=
  let h := Qfloor (v * 100) in
  let sign := if (h <? 0)%Z then "-" else EmptyString in
  let m := Z.abs h in
  sign +:+ pretty (m / 100) +:+ "."
       +:+ String (digit ((m / 10) mod 10))
             (if (m mod 10 =? 0)%Z then EmptyString
              else String (digit (m mod 10)) EmptyString).

Definition digit_value (c : ascii) : option Z :=
  let n := nat_of_ascii c in
  if ((48 <=? n) && (n <=? 57))%nat then Some (Z.of_nat (n - 48)) else None.

Fixpoint parse_digits (s : string) (acc : Z) : option (Z * string) :=
  match s with
  | EmptyString => None
  | String c s' =>
      if Ascii.eqb c "."%char then Some (acc, s')
      else match digit_value c with
           | Some d => parse_digits s' (acc * 10 + d)
           | None => None
           end
  end.

Definition parse_unsigned2 (s : string) : option Z :=
  match parse_digits s 0 with
  | Some (whole, String d1 EmptyString) =>
      match digit_value d1 with
      | Some a => Some (whole * 100 + a * 10)
      | None => None
      end
  | Some (whole, String d1 (String d0 EmptyString)) =>
      match digit_value d1, digit_value d0 with
      | Some a, Some b => Some (whole * 100 + a * 10 + b)
      | _, _ => None
      end
  | _ => None
  end.

Definition parse_decimal2 (s : string) : option Q :=
  match s with
  | String "-"%char s' => option_map (fun h => Qred (Qmake (- h) 100)) (parse_unsigned2 s')
  | _ => option_map (fun h => Qred (Qmake h 100)) (parse_unsigned2 s)
  end.

Definition decimal2_text : FloatText := Build_FloatText decimal2 parse_decimal2.

(** ** A folder used in the examples *)

Definition ramp_frame : frame := [map (fun x => [x]) (arange 1 100)].
Definition small_frame : frame := [[[3; 1]; [2; 10]]].

Definition demo_ffmpeg (fname : string) : decoding :=
  if String.eqb fname "/videos/good1.mp4" then Stream [ramp_frame; small_frame] None
  else if String.eqb fname "/videos/good2.mp4" then Stream [small_frame] None
  else if String.eqb fname "/videos/cut.mp4" then Stream [small_frame] (Some (Foreign "RuntimeError"))
  else OpenFails (Foreign "OSError").

Definition demo_listing : list string :=
  ["good1.mp4"; "notes.txt"; "corrupt.mp4"; "good2.mp4"].

Definition demo_world : world :=
  World {["/videos" := demo_listing; "/plain" := ["notes.txt"; "clip.avi"]]}
        demo_ffmpeg ∅ [] [].

(** ** Further notions used in the properties *)

(** The folder [main] works on: the argument, or the built-in one, as a
    path. *)
Definition main_path (initial_path : string) : string :=
  Path (if String.eqb initial_path EmptyString
        then "C:\Users\rjaco\Desktop\test"
        else initial_path).



(** The world after the script printed [lines]. *)
Definition printed (lines : list string) (w : world) : world :=
  World (w_scandir w) (w_ffmpeg w) (w_out w) (w_reader_calls w) (w_stdout w ++ lines).



(** A folder of 8-bit clips, one of them without a single frame. *)
Definition still_ffmpeg (fname : string) : decoding :=
  if String.eqb fname "/clips/empty.mp4" then Stream [] None
  else if String.eqb fname "/clips/dark.mp4" then Stream [[[[0; 0]; [0; 255]]]; [[[7; 7]; [7; 7]]]] None
  else OpenFails (Foreign "OSError").

Definition still_world : world :=
  World {["/clips" := ["empty.mp4"; "dark.mp4"; "readme.md"]]} still_ffmpeg ∅ [] [].



(** * Properties *)

(** ** The world and the monad *)

Lemma log_reader_calls_nil w : log_reader_calls [] w = w.
Proof. destruct w; unfold log_reader_calls; simpl. by rewrite app_nil_r. Qed.

Lemma log_reader_calls_app l1 l2 w :
  log_reader_calls l2 (log_reader_calls l1 w) = log_reader_calls (l1 ++ l2) w.
Proof. unfold log_reader_calls; simpl. by rewrite app_assoc. Qed.

Lemma series_of_log l w p f : series_of (log_reader_calls l w) p f = series_of w p f.
Proof. reflexivity. Qed.

(** ** identify_files *)





(** ** get_frame_values: the assertion *)

(** C10: an argument whose type is not exactly [list] makes
    [get_frame_values] raise [AssertionError] with the world unchanged: no
    reader has been opened. *)
Theorem get_frame_values_asserts_list video_files percentile_value w :
  py_type_of video_files <> TyList ->
  get_frame_values video_files percentile_value w
  = (Raise (AssertionError "video_files is not a list"), w).
Proof.
  intros Hty. unfold get_frame_values.
  destruct (py_type_of video_files); simpl; try reflexivity.
  by destruct Hty.
Qed.

Lemma get_frame_values_asserts_list_witness :
  get_frame_values (PyIterable TyTuple ["/videos/good1.mp4"]) 95 demo_world
  = (Raise (AssertionError "video_files is not a list"), demo_world) /\
  get_frame_values (PyIterable TyGenerator ["/videos/good1.mp4"]) 95 demo_world
  = (Raise (AssertionError "video_files is not a list"), demo_world).
Proof.
  split.
  - apply (get_frame_values_asserts_list (PyIterable TyTuple ["/videos/good1.mp4"]) 95 demo_world).
    simpl. discriminate.
  - apply get_frame_values_asserts_list. simpl. discriminate.
Defined.

(** ** get_frame_values: the two loops *)

Lemma for_frame_acc frames tail p acc :
  for_frame frames tail p acc
  = match for_frame frames tail p [] with
    | Ret vs => Ret (acc ++ vs)
    | Raise e => Raise e
    end.
Proof.
  revert acc. induction frames as [|fr frames IH]; intros acc; simpl.
  - destruct tail; [reflexivity|]. by rewrite app_nil_r.
  - destruct (np_percentile fr p) as [v|e]; [|reflexivity].
    rewrite (IH (acc ++ [v])), (IH [v]).
    destruct (for_frame frames tail p []); [|reflexivity].
    by rewrite <- app_assoc.
Qed.

(** A series is returned exactly when the stream ends without an
    exception and every frame has a percentile; the values then stand in
    frame order. *)
Lemma for_frame_Ret frames tail p vs :
  for_frame frames tail p [] = Ret vs <->
  tail = None /\ Forall2 (fun fr v => np_percentile fr p = Ret v) frames vs.
Proof.
  revert vs. induction frames as [|fr frames IH]; intros vs; simpl.
  - destruct tail; split.
    + discriminate.
    + intros [? _]; discriminate.
    + intros [= <-]. split; [reflexivity|constructor].
    + intros [_ Hall]. by inversion Hall.
  - destruct (np_percentile fr p) as [v|e] eqn:Hv.
    + rewrite for_frame_acc. split.
      * destruct (for_frame frames tail p []) as [vs'|] eqn:Hrest; [|discriminate].
        intros [= <-]. destruct (proj1 (IH vs') eq_refl) as [-> Hall].
        split; [reflexivity|]. by constructor.
      * intros [-> Hall]. inversion Hall as [|? v' ? vs' Hv' Hall']; subst.
        rewrite Hv in Hv'. injection Hv' as <-.
        by rewrite (proj2 (IH vs') (conj eq_refl Hall')).
    + split; [discriminate|].
      intros [_ Hall]. inversion Hall; subst. congruence.
Qed.

Lemma for_fname_cons f rest p acc w :
  for_fname (f :: rest) p acc w
  = match series_of w p f with
    | Ret vs => for_fname rest p (acc ++ [ValueDict f vs p]) (log_reader_calls [f] w)
    | Raise e => (Raise e, log_reader_calls [f] w)
    end.
Proof.
  simpl. unfold bind, get_reader, lift, series_of.
  destruct (w_ffmpeg w f) as [e|frames tail]; [reflexivity|]. simpl.
  by destruct (for_frame frames tail p []).
Qed.

(** Every file decodes: one dictionary per file, in the order of the files. *)
Lemma for_fname_all files p acc w :
  Forall (fun f => returns (series_of w p f) = true) files ->
  for_fname files p acc w
  = (Ret (acc ++ map (series_dict w p) files), log_reader_calls files w).
Proof.
  intros Hall. revert acc w Hall.
  induction files as [|f files IH]; intros acc w Hall.
  - simpl. unfold ret. by rewrite app_nil_r, log_reader_calls_nil.
  - inversion Hall as [|? ? Hf Hrest]; subst.
    rewrite for_fname_cons. simpl map. unfold series_dict at 1.
    destruct (series_of w p f) as [vs|e] eqn:Hs; [|discriminate Hf].
    rewrite (IH (acc ++ [ValueDict f vs p]) (log_reader_calls [f] w)) by exact Hrest.
    rewrite log_reader_calls_app. simpl. by rewrite <- app_assoc.
Qed.

(** The first file that fails ends the run with its exception. *)
Lemma for_fname_first_failure good bad rest p acc w e :
  Forall (fun f => returns (series_of w p f) = true) good ->
  series_of w p bad = Raise e ->
  for_fname (good ++ bad :: rest) p acc w
  = (Raise e, log_reader_calls (good ++ [bad]) w).
Proof.
  intros Hgood Hbad. revert acc w Hgood Hbad.
  induction good as [|f good IH]; intros acc w Hgood Hbad.
  - simpl app. rewrite for_fname_cons. by rewrite Hbad.
  - inversion Hgood as [|? ? Hf Hrest]; subst.
    rewrite <- app_comm_cons, for_fname_cons.
    destruct (series_of w p f) as [vs|e'] eqn:Hs; [|discriminate Hf].
    rewrite (IH (acc ++ [ValueDict f vs p]) (log_reader_calls [f] w)) by assumption.
    by rewrite log_reader_calls_app.
Qed.

(** A list of files splits at its first failing file, if it has one. *)
Lemma first_failure_split w p files :
  Forall (fun f => returns (series_of w p f) = true) files \/
  exists good bad rest e,
    files = good ++ bad :: rest /\
    Forall (fun f => returns (series_of w p f) = true) good /\
    series_of w p bad = Raise e.
Proof.
  induction files as [|f files IH]; [left; constructor|].
  destruct (series_of w p f) as [vs|e] eqn:Hs.
  - destruct IH as [Hall | (good & bad & rest & e & -> & Hgood & Hbad)].
    + left. constructor; [by rewrite Hs|exact Hall].
    + right. exists (f :: good), bad, rest, e. split; [reflexivity|].
      split; [|exact Hbad]. constructor; [by rewrite Hs|exact Hgood].
  - right. exists [], f, files, e. split; [reflexivity|]. split; [constructor|exact Hs].
Qed.

(** What a returned batch looks like. *)
Lemma get_frame_values_Ret files p w video_data :
  fst (get_frame_values (py_list files) p w) = Ret video_data ->
  Forall (fun f => returns (series_of w p f) = true) files /\
  video_data = map (series_dict w p) files.
Proof.
  unfold get_frame_values; simpl. intros Hret.
  destruct (first_failure_split w p files)
    as [Hall | (good & bad & rest & e & -> & Hgood & Hbad)].
  - split; [exact Hall|]. rewrite for_fname_all in Hret by exact Hall.
    simpl in Hret. congruence.
  - rewrite (for_fname_first_failure good bad rest p [] w e) in Hret by assumption.
    discriminate Hret.
Qed.

(** ** get_frame_values: what a batch holds *)

(** C1 (as the code has it): when a file cannot be opened or its decoding
    fails partway, [get_frame_values] raises that file's exception at that
    file.  No batch is returned, the exception is the only record of the
    failure, and the files after it are never handed to the reader. *)
Theorem get_frame_values_stops_at_first_failure good bad rest percentile_value w e :
  Forall (fun f => returns (series_of w percentile_value f) = true) good ->
  series_of w percentile_value bad = Raise e ->
  get_frame_values (py_list (good ++ bad :: rest)) percentile_value w
  = (Raise e, log_reader_calls (good ++ [bad]) w).
Proof.
  intros Hgood Hbad. unfold get_frame_values; simpl.
  by apply for_fname_first_failure.
Qed.

Lemma get_frame_values_stops_at_first_failure_witness :
  get_frame_values
    (py_list (["/videos/good1.mp4"] ++ "/videos/corrupt.mp4" :: ["/videos/good2.mp4"]))
    95 demo_world
  = (Raise (Foreign "OSError"),
     log_reader_calls (["/videos/good1.mp4"] ++ ["/videos/corrupt.mp4"]) demo_world).
Proof.
  apply (get_frame_values_stops_at_first_failure
           ["/videos/good1.mp4"] "/videos/corrupt.mp4" ["/videos/good2.mp4"]
           95 demo_world (Foreign "OSError")).
  - repeat constructor.
  - reflexivity.
Defined.

(** C1, the claim as stated, fails: with a file that cannot be opened, or
    one whose stream breaks, between two good ones, no batch comes back, so
    there is neither a marker for the bad file nor a series for the good
    ones. *)
Lemma get_frame_values_no_failure_isolation :
  ~ (exists video_data,
       fst (get_frame_values
              (py_list ["/videos/good1.mp4"; "/videos/corrupt.mp4"; "/videos/good2.mp4"])
              95 demo_world) = Ret video_data /\
       video_data !! 0%nat = Some (series_dict demo_world 95 "/videos/good1.mp4") /\
       video_data !! 2%nat = Some (series_dict demo_world 95 "/videos/good2.mp4")) /\
  ~ (exists video_data,
       fst (get_frame_values
              (py_list ["/videos/good1.mp4"; "/videos/cut.mp4"; "/videos/good2.mp4"])
              95 demo_world) = Ret video_data /\
       video_data !! 0%nat = Some (series_dict demo_world 95 "/videos/good1.mp4") /\
       video_data !! 2%nat = Some (series_dict demo_world 95 "/videos/good2.mp4")).
Proof.
  split; intros (video_data & Hret & _); vm_compute in Hret; discriminate Hret.
Qed.

(** A stream that ends without an exception and whose frames all have a
    percentile gives a series. *)
Lemma for_frame_all frames p acc :
  Forall (fun fr => returns (np_percentile fr p) = true) frames ->
  exists vs, for_frame frames None p acc = Ret vs.
Proof.
  intros Hall. revert acc. induction Hall as [|fr frames Hfr _ IH]; intros acc; simpl.
  - by exists acc.
  - destruct (np_percentile fr p) as [v|e]; [|discriminate Hfr]. apply IH.
Qed.

Lemma decoded_returns w p f frames :
  w_ffmpeg w f = Stream frames None ->
  Forall (fun fr => returns (np_percentile fr p) = true) frames ->
  returns (series_of w p f) = true.
Proof.
  intros Hstream Hframes. unfold series_of. rewrite Hstream.
  destruct (for_frame_all frames p [] Hframes) as [vs Hvs]. by rewrite Hvs.
Qed.

(** C5 (as the code has it): when every discovered file opens, decodes to
    its end, and [np.percentile] returns a value for each of its frames, the
    batch has exactly one entry per file, and for no files at all it is the
    empty list, returned and not raised. *)
Theorem get_frame_values_cardinality files percentile_value w :
  Forall (fun f => exists frames,
            w_ffmpeg w f = Stream frames None /\
            Forall (fun fr => returns (np_percentile fr percentile_value) = true) frames)
         files ->
  (exists video_data,
     get_frame_values (py_list files) percentile_value w
     = (Ret video_data, log_reader_calls files w) /\
     length video_data = length files) /\
  get_frame_values (py_list []) percentile_value w = (Ret [], w).
Proof.
  intros Hdecoded.
  assert (Hall : Forall (fun f => returns (series_of w percentile_value f) = true) files).
  { eapply Forall_impl; [exact Hdecoded|].
    intros f (frames & Hstream & Hframes). by eapply decoded_returns. }
  split.
  - exists (map (series_dict w percentile_value) files). split.
    + unfold get_frame_values; simpl. by rewrite for_fname_all.
    + apply length_map.
  - reflexivity.
Qed.

Lemma get_frame_values_cardinality_witness :
  (exists video_data,
     get_frame_values (py_list ["/videos/good1.mp4"; "/videos/good2.mp4"]) 95 demo_world
     = (Ret video_data,
        log_reader_calls ["/videos/good1.mp4"; "/videos/good2.mp4"] demo_world) /\
     length video_data = 2%nat) /\
  get_frame_values (py_list []) 95 demo_world = (Ret [], demo_world).
Proof.
  apply (get_frame_values_cardinality ["/videos/good1.mp4"; "/videos/good2.mp4"] 95 demo_world).
  apply Forall_cons. split.
  - exists [ramp_frame; small_frame]. split; [reflexivity|]. repeat constructor.
  - apply Forall_cons. split; [|constructor].
    exists [small_frame]. split; [reflexivity|]. repeat constructor.
Defined.

(** C5, the claim as stated, fails: one discovered file that cannot be
    opened, and there is no batch of one entry. *)
Lemma get_frame_values_no_entry_for_failure :
  ~ (exists video_data,
       fst (get_frame_values (py_list ["/videos/corrupt.mp4"]) 95 demo_world) = Ret video_data /\
       length video_data = 1%nat).
Proof.
  intros (video_data & Hret & _). vm_compute in Hret. discriminate Hret.
Qed.

(** C6: in a returned batch, entry [i] is the dictionary of the [i]-th
    file, and value [j] of its series is the percentile of the [j]-th frame
    the reader yielded for that file. *)
Theorem get_frame_values_order files percentile_value w video_data :
  fst (get_frame_values (py_list files) percentile_value w) = Ret video_data ->
  length video_data = length files /\
  forall i f, files !! i = Some f ->
    exists frames vs,
      w_ffmpeg w f = Stream frames None /\
      video_data !! i = Some (ValueDict f vs percentile_value) /\
      length vs = length frames /\
      forall j fr, frames !! j = Some fr ->
        exists v, vs !! j = Some v /\ np_percentile fr percentile_value = Ret v.
Proof.
  intros Hret. apply get_frame_values_Ret in Hret as [Hall ->].
  split; [apply length_map|].
  intros i f Hi.
  assert (Hf : returns (series_of w percentile_value f) = true).
  { rewrite Forall_forall in Hall. apply Hall.
    apply list_elem_of_lookup. by exists i. }
  assert (Hentry : map (series_dict w percentile_value) files !! i
                   = Some (series_dict w percentile_value f)).
  { change (map (series_dict w percentile_value) files)
      with (series_dict w percentile_value <$> files).
    by rewrite list_lookup_fmap, Hi. }
  unfold series_dict in Hentry. unfold series_of in Hf, Hentry.
  destruct (w_ffmpeg w f) as [e|frames tail]; [discriminate Hf|].
  destruct (for_frame frames tail percentile_value []) as [vs|e] eqn:Hvs; [|discriminate Hf].
  apply for_frame_Ret in Hvs as [-> Hframes].
  exists frames, vs. split; [reflexivity|]. split; [exact Hentry|].
  split; [symmetry; exact (Forall2_length _ _ _ Hframes)|].
  intros j fr Hj. exact (Forall2_lookup_l _ _ _ _ _ Hframes Hj).
Qed.

Lemma get_frame_values_order_witness :
  length [ValueDict "/videos/good1.mp4" [(1901 # 20)%Q; (179 # 20)%Q] 95;
          ValueDict "/videos/good2.mp4" [(179 # 20)%Q] 95] = 2%nat /\
  forall i f, ["/videos/good1.mp4"; "/videos/good2.mp4"] !! i = Some f ->
    exists frames vs,
      w_ffmpeg demo_world f = Stream frames None /\
      [ValueDict "/videos/good1.mp4" [(1901 # 20)%Q; (179 # 20)%Q] 95;
       ValueDict "/videos/good2.mp4" [(179 # 20)%Q] 95] !! i = Some (ValueDict f vs 95) /\
      length vs = length frames /\
      forall j fr, frames !! j = Some fr ->
        exists v, vs !! j = Some v /\ np_percentile fr 95 = Ret v.
Proof.
  apply (get_frame_values_order ["/videos/good1.mp4"; "/videos/good2.mp4"] 95 demo_world).
  reflexivity.
Defined.

(** ** numpy.percentile *)

Lemma fold_min_le xs x :
  fold_left Z.min xs x <= x /\ Forall (fun y => fold_left Z.min xs x <= y) xs.
Proof.
  revert x. induction xs as [|y xs IH]; intros x; simpl.
  - split; [lia|constructor].
  - destruct (IH (Z.min x y)) as [Hx Hxs]. split; [lia|].
    constructor; [lia|exact Hxs].
Qed.

Lemma fold_max_ge xs x :
  x <= fold_left Z.max xs x /\ Forall (fun y => y <= fold_left Z.max xs x) xs.
Proof.
  revert x. induction xs as [|y xs IH]; intros x; simpl.
  - split; [lia|constructor].
  - destruct (IH (Z.max x y)) as [Hx Hxs]. split; [lia|].
    constructor; [lia|exact Hxs].
Qed.

Lemma amin_amax_bound xs x : x ∈ xs -> amin xs <= x <= amax xs.
Proof.
  destruct xs as [|y xs]; [by intros ?%elem_of_nil|].
  intros Hx. simpl.
  destruct (fold_min_le xs y) as [Hmin Hmins], (fold_max_ge xs y) as [Hmax Hmaxs].
  rewrite Forall_forall in Hmins, Hmaxs.
  apply elem_of_cons in Hx as [->|Hx]; [lia|].
  split; [by apply Hmins | by apply Hmaxs].
Qed.

Lemma lerp_bounds (lo hi a b t : Q) :
  (0 <= t)%Q -> (t <= 1)%Q ->
  (lo <= a)%Q -> (a <= hi)%Q -> (lo <= b)%Q -> (b <= hi)%Q ->
  (lo <= lerp a b t)%Q /\ (lerp a b t <= hi)%Q.
Proof.
  intros. unfold lerp. destruct (Qle_bool (1 # 2) t); split; nra.
Qed.

Lemma sorted_nth_bound xs i :
  (i < length xs)%nat ->
  amin xs <= nth i (merge_sort Z.le xs) 0 <= amax xs.
Proof.
  intros Hi. apply amin_amax_bound.
  apply (elem_of_Permutation_proper _ _ _ (merge_sort_Permutation Z.le xs)).
  apply nth_elem_of.
  by rewrite (Permutation_length (merge_sort_Permutation Z.le xs)).
Qed.

(** C7: for a percentile in [0, 100] and a frame with at least one
    sample, [np.percentile] returns a value, and the value lies between the
    least and the greatest sample. *)
Theorem np_percentile_between_min_and_max a q :
  0 <= q <= 100 ->
  ravel a <> [] ->
  exists v, np_percentile a q = Ret v /\
            (inject_Z (amin (ravel a)) <= v)%Q /\ (v <= inject_Z (amax (ravel a)))%Q.
Proof.
  intros Hq Hne. unfold np_percentile.
  assert (Hrange : ((q <? 0) || (100 <? q))%Z = false).
  { apply orb_false_iff. split; apply Z.ltb_ge; lia. }
  rewrite Hrange.
  rewrite (Permutation_length (merge_sort_Permutation Z.le (ravel a))).
  set (n := Z.of_nat (length (ravel a))).
  assert (Hn : 0 < n).
  { subst n. destruct (ravel a); [done|simpl; lia]. }
  assert (Hzero : (n =? 0)%Z = false) by (apply Z.eqb_neq; lia).
  rewrite Hzero.
  set (scaled := (n - 1) * q).
  assert (Hscaled : 0 <= scaled <= (n - 1) * 100) by (subst scaled; nia).
  assert (Hprev : 0 <= scaled / 100 <= n - 1).
  { split; [apply Z.div_pos; lia|]. apply Z.div_le_upper_bound; lia. }
  assert (Hmod : 0 <= scaled mod 100 < 100) by (apply Z.mod_pos_bound; lia).
  eexists. split; [reflexivity|].
  rewrite Qred_correct.
  apply lerp_bounds.
  - unfold Qle; simpl. lia.
  - unfold Qle; simpl. lia.
  - rewrite <- Zle_Qle. apply sorted_nth_bound. subst n. lia.
  - rewrite <- Zle_Qle. apply sorted_nth_bound. subst n. lia.
  - rewrite <- Zle_Qle. apply sorted_nth_bound. subst n. lia.
  - rewrite <- Zle_Qle. apply sorted_nth_bound. subst n. lia.
Qed.

Lemma np_percentile_between_min_and_max_witness :
  exists v, np_percentile small_frame 95 = Ret v /\
            (inject_Z (amin (ravel small_frame)) <= v)%Q /\
            (v <= inject_Z (amax (ravel small_frame)))%Q.
Proof.
  apply (np_percentile_between_min_and_max small_frame 95).
  - lia.
  - discriminate.
Defined.

Lemma lerp_linear (a b t : Q) : (lerp a b t == a + (b - a) * t)%Q.
Proof.
  unfold lerp. cbv zeta. destruct (Qle_bool (1 # 2) t); [ring|reflexivity].
Qed.

(** In exact arithmetic [np.percentile] computes the textbook interpolated
    order statistic of the ordered samples. *)
Lemma np_percentile_interpolates a q :
  0 <= q <= 100 ->
  ravel a <> [] ->
  exists v, np_percentile a q = Ret v /\
            (v == interpolated_order_statistic (merge_sort Z.le (ravel a)) q)%Q.
Proof.
  intros Hq Hne. unfold np_percentile, interpolated_order_statistic.
  assert (Hrange : ((q <? 0) || (100 <? q))%Z = false).
  { apply orb_false_iff. split; apply Z.ltb_ge; lia. }
  rewrite Hrange.
  set (arr := merge_sort Z.le (ravel a)).
  set (n := Z.of_nat (length arr)).
  assert (Hn : 0 < n).
  { subst n arr. rewrite (Permutation_length (merge_sort_Permutation Z.le (ravel a))).
    destruct (ravel a); [done|simpl; lia]. }
  assert (Hzero : (n =? 0)%Z = false) by (apply Z.eqb_neq; lia).
  rewrite Hzero.
  set (scaled := (n - 1) * q).
  assert (Hscaled : 0 <= scaled <= (n - 1) * 100) by (subst scaled; nia).
  eexists. split; [reflexivity|].
  rewrite Qred_correct, lerp_linear.
  change (Qfloor (scaled # 100)) with (scaled / 100).
  change (Qceiling (scaled # 100)) with (- ((- scaled) / 100)).
  pose proof (Z.div_mod scaled 100 ltac:(lia)) as Hdm.
  pose proof (Z.mod_pos_bound scaled 100 ltac:(lia)) as Hmod.
  assert (Hgamma : ((scaled # 100) - inject_Z (scaled / 100) == (scaled mod 100) # 100)%Q).
  { unfold Qeq, Qminus, Qplus, Qopp, inject_Z; simpl. lia. }
  rewrite Hgamma.
  destruct (decide (scaled mod 100 = 0)) as [Hexact|Hbetween].
  - assert (Hceil : - ((- scaled) / 100) = scaled / 100).
    { rewrite Z.mod_divide in Hexact by lia. destruct Hexact as [k ->].
      rewrite <- Z.mul_opp_l, !Z.div_mul by lia. lia. }
    rewrite Hceil, Hexact.
    assert (Hnought : (0 # 100 == 0)%Q) by reflexivity.
    rewrite Hnought. ring.
  - assert (Hceil : - ((- scaled) / 100) = scaled / 100 + 1).
    { pose proof (Z.div_mod (- scaled) 100 ltac:(lia)) as Hdm'.
      pose proof (Z.mod_pos_bound (- scaled) 100 ltac:(lia)) as Hmod'.
      lia. }
    assert (Hnext : Z.min (scaled / 100 + 1) (n - 1) = scaled / 100 + 1) by lia.
    rewrite Hceil, Hnext. ring.
Qed.

Lemma arange_sorted first count : Sorted Z.le (arange first count).
Proof.
  unfold arange. generalize 0%nat as start.
  induction count as [|count IH]; intros start; simpl; [constructor|].
  constructor; [apply IH|].
  destruct count; simpl; constructor. lia.
Qed.

(** C4: a frame whose samples are the 100 values 1, ..., 100, in any
    arrangement, has the 95th percentile 95.05: the textbook interpolated
    order statistic of the ordered samples, which lies 5/100 of the way from
    the 95th smallest sample to the 96th. *)
Theorem np_percentile_ramp_95 a :
  ravel a ≡ₚ arange 1 100 ->
  exists v, np_percentile a 95 = Ret v /\
            (v == interpolated_order_statistic (merge_sort Z.le (ravel a)) 95)%Q /\
            (v == 95 + (5 # 100) * (96 - 95))%Q /\
            v = (1901 # 20)%Q.
Proof.
  intros Hperm.
  assert (Hsorted : merge_sort Z.le (ravel a) = arange 1 100).
  { apply (Sorted_unique Z.le).
    - apply Sorted_merge_sort. apply _.
    - apply arange_sorted.
    - by rewrite merge_sort_Permutation. }
  unfold np_percentile. rewrite Hsorted.
  eexists. split; [vm_compute; reflexivity|].
  split; [|split]; reflexivity.
Qed.

Lemma np_percentile_ramp_95_witness :
  exists v, np_percentile ramp_frame 95 = Ret v /\
            (v == interpolated_order_statistic (merge_sort Z.le (ravel ramp_frame)) 95)%Q /\
            (v == 95 + (5 # 100) * (96 - 95))%Q /\
            v = (1901 # 20)%Q.
Proof.
  apply (np_percentile_ramp_95 ramp_frame).
  vm_compute. reflexivity.
Defined.





(** ** Strings *)

Lemma append_cons c s t : String c s +:+ t = String c (s +:+ t).
Proof. reflexivity. Qed.


Lemma append_assoc s1 s2 s3 : (s1 +:+ s2) +:+ s3 = s1 +:+ (s2 +:+ s3).
Proof.
  induction s1 as [|c s1 IH]; [reflexivity|]. by rewrite !append_cons, IH.
Qed.

Lemma length_append s1 s2 :
  String.length (s1 +:+ s2) = (String.length s1 + String.length s2)%nat.
Proof.
  induction s1 as [|c s1 IH]; [reflexivity|].
  rewrite append_cons. simpl. by rewrite IH.
Qed.


Lemma path_join_suffix p stem ext :
  exists s, path_join p (stem +:+ ext) = s +:+ ext.
Proof.
  unfold path_join.
  destruct (is_absolute (stem +:+ ext)); [by exists stem|].
  destruct (String.eqb p "" || String.eqb p "."); [by exists stem|].
  destruct (endswith p "/").
  - exists (p +:+ stem). by rewrite append_assoc.
  - exists (p +:+ "/" +:+ stem). by rewrite !append_assoc.
Qed.




(** ** plot_frame_values *)


Section Sinks.
Context `{FloatText}.













End Sinks.



(** * Further properties of the script *)

(** ** Matching names *)

Lemma substring_whole s : substring 0 (String.length s) s = s.
Proof. induction s as [|c s IH]; [reflexivity|]. simpl. by rewrite IH. Qed.

Lemma substring_after pre suf :
  substring (String.length pre) (String.length suf) (pre +:+ suf) = suf.
Proof.
  induction pre as [|c pre IH]; [apply substring_whole|].
  rewrite append_cons. simpl. exact IH.
Qed.

Lemma substring_split s m :
  (m <= String.length s)%nat ->
  s = substring 0 m s +:+ substring m (String.length s - m) s.
Proof.
  revert m. induction s as [|c s IH]; intros [|m] Hm; simpl in *; try lia.
  - reflexivity.
  - by rewrite substring_whole.
  - rewrite append_cons. f_equal. apply IH. lia.
Qed.

Lemma endswith_spec s suffix :
  endswith s suffix = true <-> exists stem, s = stem +:+ suffix.
Proof.
  unfold endswith. rewrite andb_true_iff, Nat.leb_le, String.eqb_eq. split.
  - intros [Hlen Hsub].
    exists (substring 0 (String.length s - String.length suffix) s).
    pose proof (substring_split s (String.length s - String.length suffix)) as Hsplit.
    replace (String.length s - (String.length s - String.length suffix))%nat
      with (String.length suffix) in Hsplit by lia.
    rewrite Hsub in Hsplit. apply Hsplit. lia.
  - intros [stem ->]. rewrite length_append. split; [lia|].
    replace (String.length stem + String.length suffix - String.length suffix)%nat
      with (String.length stem) by lia.
    apply substring_after.
Qed.

(** ** identify_files *)

(** X1: on an existing directory, named by any string and normalised as
    [pathlib.Path] does, [identify_files] returns, joined to the directory
    and in listing order, exactly the names among the entries that end in
    [.mp4]; the count it returns is their number, every returned path ends
    in [.mp4], and the world is left as it was. *)
Theorem identify_files_exactly_mp4 s w entries :
  w_scandir w !! Path s = Some entries ->
  exists names,
    identify_files (Path s) w = (Ret (map (path_join (Path s)) names, length names), w) /\
    names `sublist_of` entries /\
    (forall n, n ∈ names <->
               n ∈ entries /\ is_name n = true /\ exists stem, n = stem +:+ ".mp4") /\
    (forall f, f ∈ map (path_join (Path s)) names -> exists stem, f = stem +:+ ".mp4").
Proof.
  intros Hdir.
  exists (filter (fun n => Is_true (fnmatch_star_mp4 n))
            (filter (fun n => Is_true (is_name n)) entries)).
  split; [|split; [|split]].
  - unfold identify_files, glob_mp4, scandir. rewrite Hdir. by rewrite length_map.
  - etrans; apply sublist_filter.
  - intros n. unfold fnmatch_star_mp4.
    rewrite !list_elem_of_filter, !Is_true_true, endswith_spec. tauto.
  - intros f Hf. apply list_elem_of_fmap in Hf as (n & -> & Hn).
    apply list_elem_of_filter in Hn as [Hn _].
    apply Is_true_true, endswith_spec in Hn as [stem ->].
    apply path_join_suffix.
Qed.

Lemma identify_files_exactly_mp4_witness :
  identify_files (Path "/videos/./") demo_world
  = (Ret (["/videos/good1.mp4"; "/videos/corrupt.mp4"; "/videos/good2.mp4"], 3%nat),
     demo_world) /\
  exists names,
    identify_files (Path "/videos//") demo_world
    = (Ret (map (path_join (Path "/videos//")) names, length names), demo_world) /\
    names `sublist_of` demo_listing /\
    (forall n, n ∈ names <->
               n ∈ demo_listing /\ is_name n = true /\ exists stem, n = stem +:+ ".mp4") /\
    (forall f, f ∈ map (path_join (Path "/videos//")) names ->
               exists stem, f = stem +:+ ".mp4").
Proof.
  split; [reflexivity|].
  apply (identify_files_exactly_mp4 "/videos//" demo_world demo_listing); reflexivity.
Defined.

(** ** numpy.percentile: further properties *)

Lemma sorted_nth_le arr i j :
  StronglySorted Z.le arr ->
  (i <= j < length arr)%nat ->
  nth i arr 0 <= nth j arr 0.
Proof.
  intros Hsorted. revert i j.
  induction Hsorted as [|x arr _ IH Hx]; intros i j Hij; simpl in Hij; [lia|].
  destruct i as [|i], j as [|j]; simpl; try lia.
  - rewrite Forall_forall in Hx. apply Hx, nth_elem_of. lia.
  - apply IH. lia.
Qed.

Lemma samples_strongly_sorted xs : StronglySorted Z.le (merge_sort Z.le xs).
Proof. apply StronglySorted_merge_sort; apply _. Qed.

Lemma fold_min_in xs x : fold_left Z.min xs x ∈ x :: xs.
Proof.
  revert x. induction xs as [|y xs IH]; intros x; simpl; [apply list_elem_of_here|].
  specialize (IH (Z.min x y)). apply elem_of_cons in IH as [Hhere|Hlater].
  - rewrite Hhere. destruct (Z.min_spec x y) as [[_ ->]|[_ ->]].
    + apply list_elem_of_here.
    + apply list_elem_of_further, list_elem_of_here.
  - by do 2 apply list_elem_of_further.
Qed.

Lemma fold_max_in xs x : fold_left Z.max xs x ∈ x :: xs.
Proof.
  revert x. induction xs as [|y xs IH]; intros x; simpl; [apply list_elem_of_here|].
  specialize (IH (Z.max x y)). apply elem_of_cons in IH as [Hhere|Hlater].
  - rewrite Hhere. destruct (Z.max_spec x y) as [[_ ->]|[_ ->]].
    + apply list_elem_of_further, list_elem_of_here.
    + apply list_elem_of_here.
  - by do 2 apply list_elem_of_further.
Qed.

Lemma amin_in xs : xs <> [] -> amin xs ∈ xs.
Proof. destruct xs as [|x xs]; [done|]. intros _. apply fold_min_in. Qed.

Lemma amax_in xs : xs <> [] -> amax xs ∈ xs.
Proof. destruct xs as [|x xs]; [done|]. intros _. apply fold_max_in. Qed.

Lemma sorted_elem_index xs x :
  x ∈ xs ->
  exists j, (j < length xs)%nat /\ nth j (merge_sort Z.le xs) 0 = x.
Proof.
  intros Hx.
  apply (elem_of_Permutation_proper _ _ _ (merge_sort_Permutation Z.le xs)) in Hx.
  apply list_elem_of_lookup in Hx as [j Hj]. exists j. split.
  - rewrite <- (Permutation_length (merge_sort_Permutation Z.le xs)).
    by eapply lookup_lt_Some.
  - by apply nth_lookup_Some.
Qed.

Lemma sorted_first_is_amin xs :
  xs <> [] -> nth 0 (merge_sort Z.le xs) 0 = amin xs.
Proof.
  intros Hne.
  assert (Hlen : (0 < length xs)%nat) by (destruct xs; [done|simpl; lia]).
  apply Z.le_antisymm.
  - destruct (sorted_elem_index xs (amin xs) (amin_in xs Hne)) as (j & Hj & <-).
    apply sorted_nth_le; [apply samples_strongly_sorted|].
    rewrite (Permutation_length (merge_sort_Permutation Z.le xs)). lia.
  - apply sorted_nth_bound. exact Hlen.
Qed.

Lemma sorted_last_is_amax xs :
  xs <> [] -> nth (length xs - 1) (merge_sort Z.le xs) 0 = amax xs.
Proof.
  intros Hne.
  assert (Hlen : (0 < length xs)%nat) by (destruct xs; [done|simpl; lia]).
  apply Z.le_antisymm.
  - apply sorted_nth_bound. lia.
  - destruct (sorted_elem_index xs (amax xs) (amax_in xs Hne)) as (j & Hj & <-).
    apply sorted_nth_le; [apply samples_strongly_sorted|].
    rewrite (Permutation_length (merge_sort_Permutation Z.le xs)). lia.
Qed.

(** The value [np.percentile] returns on a frame with samples, for a
    percentile in range. *)
Lemma np_percentile_eval a q :
  0 <= q <= 100 ->
  ravel a <> [] ->
  np_percentile a q
  = Ret (Qred (lerp
      (inject_Z (nth (Z.to_nat (((Z.of_nat (length (ravel a)) - 1) * q) / 100))
                     (merge_sort Z.le (ravel a)) 0))
      (inject_Z (nth (Z.to_nat (Z.min (((Z.of_nat (length (ravel a)) - 1) * q) / 100 + 1)
                                      (Z.of_nat (length (ravel a)) - 1)))
                     (merge_sort Z.le (ravel a)) 0))
      (Qmake (((Z.of_nat (length (ravel a)) - 1) * q) mod 100) 100))).
Proof.
  intros Hq Hne. unfold np_percentile.
  assert (Hrange : ((q <? 0) || (100 <? q))%Z = false).
  { apply orb_false_iff. split; apply Z.ltb_ge; lia. }
  rewrite Hrange.
  rewrite (Permutation_length (merge_sort_Permutation Z.le (ravel a))).
  assert (Hzero : (Z.of_nat (length (ravel a)) =? 0)%Z = false).
  { apply Z.eqb_neq. destruct (ravel a); [done|simpl; lia]. }
  by rewrite Hzero.
Qed.

(** A returned percentile tells that the percentile was in range and the
    frame had samples. *)
Lemma np_percentile_Ret_inv a q v :
  np_percentile a q = Ret v -> 0 <= q <= 100 /\ ravel a <> [].
Proof.
  unfold np_percentile.
  destruct ((q <? 0) || (100 <? q))%Z eqn:Hrange; [discriminate|].
  apply orb_false_iff in Hrange as [Hlow Hhigh].
  apply Z.ltb_ge in Hlow, Hhigh.
  rewrite (Permutation_length (merge_sort_Permutation Z.le (ravel a))).
  destruct (ravel a) as [|x xs]; [discriminate|]. intros _. split; [lia|done].
Qed.

(** X2: [np.percentile] looks at the samples of a frame as a multiset: two
    frames with the same samples, in whatever shape and order, have the same
    percentile (or fail alike). *)
Theorem np_percentile_permutation a b q :
  ravel a ≡ₚ ravel b ->
  np_percentile a q = np_percentile b q.
Proof.
  intros Hperm.
  assert (Hsorted : merge_sort Z.le (ravel a) = merge_sort Z.le (ravel b)).
  { apply (Sorted_unique Z.le).
    - apply Sorted_merge_sort. apply _.
    - apply Sorted_merge_sort. apply _.
    - by rewrite !merge_sort_Permutation. }
  unfold np_percentile. by rewrite Hsorted.
Qed.

Lemma np_percentile_permutation_witness :
  np_percentile small_frame 95 = np_percentile [[[1; 3; 2; 10]]] 95.
Proof.
  apply (np_percentile_permutation small_frame [[[1; 3; 2; 10]]] 95).
  simpl. apply perm_swap.
Defined.

(** X3: on a frame with samples, percentile 0 is the least sample and
    percentile 100 the greatest. *)
Theorem np_percentile_extremes a :
  ravel a <> [] ->
  np_percentile a 0 = Ret (inject_Z (amin (ravel a))) /\
  np_percentile a 100 = Ret (inject_Z (amax (ravel a))).
Proof.
  intros Hne.
  assert (Hlen : (0 < length (ravel a))%nat) by (destruct (ravel a); [done|simpl; lia]).
  split.
  - rewrite np_percentile_eval by (done || lia).
    rewrite Z.mul_0_r. change (0 / 100) with 0. change (0 mod 100) with 0.
    rewrite <- (inject_Z_Qred (amin (ravel a))). f_equal. apply Qred_complete.
    rewrite lerp_linear. change (Z.to_nat 0) with 0%nat.
    rewrite (sorted_first_is_amin _ Hne).
    assert (Hnought : (0 # 100 == 0)%Q) by reflexivity.
    rewrite Hnought. ring.
  - rewrite np_percentile_eval by (done || lia).
    rewrite Z.div_mul, Z.mod_mul by lia.
    replace (Z.min (Z.of_nat (length (ravel a)) - 1 + 1) (Z.of_nat (length (ravel a)) - 1))
      with (Z.of_nat (length (ravel a)) - 1) by lia.
    replace (Z.to_nat (Z.of_nat (length (ravel a)) - 1))
      with (length (ravel a) - 1)%nat by lia.
    rewrite <- (inject_Z_Qred (amax (ravel a))). f_equal. apply Qred_complete.
    rewrite lerp_linear, (sorted_last_is_amax _ Hne).
    assert (Hnought : (0 # 100 == 0)%Q) by reflexivity.
    rewrite Hnought. ring.
Qed.

Lemma np_percentile_extremes_witness :
  np_percentile small_frame 0 = Ret (inject_Z (amin (ravel small_frame))) /\
  np_percentile small_frame 100 = Ret (inject_Z (amax (ravel small_frame))).
Proof.
  apply (np_percentile_extremes small_frame). discriminate.
Defined.

Lemma gamma_bounds s : (0 <= Qmake (s mod 100) 100)%Q /\ (Qmake (s mod 100) 100 <= 1)%Q.
Proof.
  pose proof (Z.mod_pos_bound s 100 ltac:(lia)).
  unfold Qle; simpl. lia.
Qed.

(** Along an ordered array the interpolated value grows with the scaled
    virtual index. *)
Lemma interpolation_monotone arr s1 s2 :
  StronglySorted Z.le arr ->
  0 <= s1 <= s2 ->
  s2 <= (Z.of_nat (length arr) - 1) * 100 ->
  Qle (lerp (inject_Z (nth (Z.to_nat (s1 / 100)) arr 0))
            (inject_Z (nth (Z.to_nat (Z.min (s1 / 100 + 1) (Z.of_nat (length arr) - 1))) arr 0))
            (Qmake (s1 mod 100) 100))
      (lerp (inject_Z (nth (Z.to_nat (s2 / 100)) arr 0))
            (inject_Z (nth (Z.to_nat (Z.min (s2 / 100 + 1) (Z.of_nat (length arr) - 1))) arr 0))
            (Qmake (s2 mod 100) 100)).
Proof.
  intros Hsorted Hs Hmax.
  set (n := Z.of_nat (length arr)) in *.
  pose proof (Z.div_mod s1 100 ltac:(lia)) as Hdm1.
  pose proof (Z.div_mod s2 100 ltac:(lia)) as Hdm2.
  pose proof (Z.mod_pos_bound s1 100 ltac:(lia)) as Hr1.
  pose proof (Z.mod_pos_bound s2 100 ltac:(lia)) as Hr2.
  assert (Hlo1 : 0 <= s1 / 100 <= n - 1) by lia.
  assert (Hlo2 : 0 <= s2 / 100 <= n - 1) by lia.
  assert (Hlo : s1 / 100 <= s2 / 100) by (apply Z.div_le_mono; lia).
  assert (Hab1 : nth (Z.to_nat (s1 / 100)) arr 0
                 <= nth (Z.to_nat (Z.min (s1 / 100 + 1) (n - 1))) arr 0).
  { apply sorted_nth_le; [exact Hsorted|]. subst n. lia. }
  assert (Hab2 : nth (Z.to_nat (s2 / 100)) arr 0
                 <= nth (Z.to_nat (Z.min (s2 / 100 + 1) (n - 1))) arr 0).
  { apply sorted_nth_le; [exact Hsorted|]. subst n. lia. }
  rewrite Zle_Qle in Hab1, Hab2.
  destruct (gamma_bounds s1) as [Hg1 Hg1'], (gamma_bounds s2) as [Hg2 Hg2'].
  rewrite !lerp_linear.
  destruct (decide (s1 / 100 = s2 / 100)) as [Hsame|Hless].
  - rewrite <- Hsame in *.
    assert (Hg : (Qmake (s1 mod 100) 100 <= Qmake (s2 mod 100) 100)%Q).
    { unfold Qle; simpl. lia. }
    nra.
  - assert (Hcross : nth (Z.to_nat (Z.min (s1 / 100 + 1) (n - 1))) arr 0
                     <= nth (Z.to_nat (s2 / 100)) arr 0).
    { apply sorted_nth_le; [exact Hsorted|]. subst n. lia. }
    rewrite Zle_Qle in Hcross. nra.
Qed.

(** X4: on a frame with samples the percentile value grows with the
    percentile: a higher percentile never gives a lower value. *)
Theorem np_percentile_monotone a q1 q2 :
  0 <= q1 <= q2 ->
  q2 <= 100 ->
  ravel a <> [] ->
  exists v1 v2,
    np_percentile a q1 = Ret v1 /\ np_percentile a q2 = Ret v2 /\ (v1 <= v2)%Q.
Proof.
  intros Hq1 Hq2 Hne.
  assert (Hlen : (0 < length (ravel a))%nat) by (destruct (ravel a); [done|simpl; lia]).
  do 2 eexists.
  split; [apply np_percentile_eval; [lia|done]|].
  split; [apply np_percentile_eval; [lia|done]|].
  rewrite !Qred_correct.
  rewrite <- (Permutation_length (merge_sort_Permutation Z.le (ravel a))).
  apply interpolation_monotone.
  - apply samples_strongly_sorted.
  - rewrite (Permutation_length (merge_sort_Permutation Z.le (ravel a))). nia.
  - rewrite (Permutation_length (merge_sort_Permutation Z.le (ravel a))). nia.
Qed.

Lemma np_percentile_monotone_witness :
  exists v1 v2,
    np_percentile small_frame 50 = Ret v1 /\ np_percentile small_frame 95 = Ret v2 /\
    (v1 <= v2)%Q.
Proof.
  apply (np_percentile_monotone small_frame 50 95).
  - lia.
  - lia.
  - discriminate.
Defined.

(** Bounds on the samples are bounds on the percentile. *)
Lemma np_percentile_within a q v (lo hi : Z) :
  (forall x, x ∈ ravel a -> lo <= x <= hi) ->
  np_percentile a q = Ret v ->
  (inject_Z lo <= v)%Q /\ (v <= inject_Z hi)%Q.
Proof.
  intros Hbounds Hv.
  destruct (np_percentile_Ret_inv a q v Hv) as [Hq Hne].
  rewrite (np_percentile_eval a q Hq Hne) in Hv. injection Hv as <-.
  assert (Hlen : (0 < length (ravel a))%nat) by (destruct (ravel a); [done|simpl; lia]).
  set (n := Z.of_nat (length (ravel a))).
  set (scaled := (n - 1) * q).
  assert (Hscaled : 0 <= scaled <= (n - 1) * 100) by (subst scaled n; nia).
  assert (Hprev : 0 <= scaled / 100 <= n - 1).
  { split; [apply Z.div_pos; lia|]. apply Z.div_le_upper_bound; lia. }
  assert (Hnth : forall i, (i < length (ravel a))%nat ->
                 lo <= nth i (merge_sort Z.le (ravel a)) 0 <= hi).
  { intros i Hi. apply Hbounds.
    apply (elem_of_Permutation_proper _ _ _ (merge_sort_Permutation Z.le (ravel a))).
    apply nth_elem_of.
    by rewrite (Permutation_length (merge_sort_Permutation Z.le (ravel a))). }
  rewrite Qred_correct.
  destruct (gamma_bounds scaled) as [Hg Hg'].
  apply lerp_bounds; try done; rewrite <- Zle_Qle; apply Hnth; subst n; lia.
Qed.

(** ** get_frame_values: further properties *)

(** X6: whatever [get_frame_values] is given and however it ends, it
    writes no file, prints nothing and leaves the directories alone; all it
    does to the world is open readers, and the readers it opened are the
    first files of the list, in order and each once. *)
Theorem get_frame_values_footprint video_files percentile_value w :
  w_scandir (snd (get_frame_values video_files percentile_value w)) = w_scandir w /\
  w_ffmpeg (snd (get_frame_values video_files percentile_value w)) = w_ffmpeg w /\
  w_out (snd (get_frame_values video_files percentile_value w)) = w_out w /\
  w_stdout (snd (get_frame_values video_files percentile_value w)) = w_stdout w /\
  exists k,
    w_reader_calls (snd (get_frame_values video_files percentile_value w))
    = w_reader_calls w ++ take k (py_items video_files).
Proof.
  unfold get_frame_values. destruct (is_list (py_type_of video_files)).
  - destruct (first_failure_split w percentile_value (py_items video_files))
      as [Hall | (good & bad & rest & e & Hsplit & Hgood & Hbad)].
    + rewrite for_fname_all by exact Hall. simpl.
      repeat split. exists (length (py_items video_files)). by rewrite firstn_all.
    + rewrite Hsplit.
      rewrite (for_fname_first_failure good bad rest percentile_value [] w e) by assumption.
      simpl. repeat split. exists (length (good ++ [bad])).
      replace (good ++ bad :: rest) with ((good ++ [bad]) ++ rest)
        by (by rewrite <- app_assoc).
      by rewrite take_app_length.
  - simpl. repeat split. exists 0%nat. by rewrite take_0, app_nil_r.
Qed.

(** X7: batches compose: when a list of files and a second list each give
    a batch, the two lists one after the other give the two batches one
    after the other. *)
Theorem get_frame_values_app files1 files2 percentile_value w video_data1 video_data2 :
  fst (get_frame_values (py_list files1) percentile_value w) = Ret video_data1 ->
  fst (get_frame_values (py_list files2) percentile_value w) = Ret video_data2 ->
  get_frame_values (py_list (files1 ++ files2)) percentile_value w
  = (Ret (video_data1 ++ video_data2), log_reader_calls (files1 ++ files2) w).
Proof.
  intros [Hall1 ->]%get_frame_values_Ret [Hall2 ->]%get_frame_values_Ret.
  unfold get_frame_values; simpl.
  rewrite for_fname_all by (by apply Forall_app).
  simpl. by rewrite map_app.
Qed.

Lemma get_frame_values_app_witness :
  get_frame_values (py_list (["/videos/good1.mp4"] ++ ["/videos/good2.mp4"])) 95 demo_world
  = (Ret ([ValueDict "/videos/good1.mp4" [(1901 # 20)%Q; (179 # 20)%Q] 95]
          ++ [ValueDict "/videos/good2.mp4" [(179 # 20)%Q] 95]),
     log_reader_calls (["/videos/good1.mp4"] ++ ["/videos/good2.mp4"]) demo_world).
Proof.
  apply (get_frame_values_app ["/videos/good1.mp4"] ["/videos/good2.mp4"] 95 demo_world);
    reflexivity.
Defined.

(** X8: the values of a returned series stay within the range of the
    pixels: when every sample of every frame of a file lies between [lo] and
    [hi] (0 and 255 for 8-bit video), so does every value of its series. *)
Theorem get_frame_values_within_pixel_range files percentile_value w video_data d frames
    (lo hi : Z) :
  fst (get_frame_values (py_list files) percentile_value w) = Ret video_data ->
  d ∈ video_data ->
  w_ffmpeg w (fname d) = Stream frames None ->
  (forall fr x, fr ∈ frames -> x ∈ ravel fr -> lo <= x <= hi) ->
  forall v, v ∈ values d -> (inject_Z lo <= v)%Q /\ (v <= inject_Z hi)%Q.
Proof.
  intros [Hall ->]%get_frame_values_Ret Hd Hstream Hbounds v Hv.
  apply list_elem_of_fmap in Hd as (f & -> & Hf).
  rewrite Forall_forall in Hall. specialize (Hall f Hf).
  simpl in Hstream, Hv. unfold series_of in Hall, Hv. rewrite Hstream in Hall, Hv.
  destruct (for_frame frames None percentile_value []) as [vs|e] eqn:Hvs; [|discriminate Hall].
  apply for_frame_Ret in Hvs as [_ Hframes]. simpl in Hv.
  apply list_elem_of_lookup in Hv as [j Hj].
  destruct (Forall2_lookup_r _ _ _ _ _ Hframes Hj) as (fr & Hfr & Hpercentile).
  apply (np_percentile_within fr percentile_value v lo hi); [|exact Hpercentile].
  intros x Hx. apply (Hbounds fr x); [|exact Hx].
  apply list_elem_of_lookup. by exists j.
Qed.

Lemma get_frame_values_within_pixel_range_witness :
  (inject_Z 0 <= 561 # 4)%Q /\ (561 # 4 <= inject_Z 255)%Q.
Proof.
  apply (get_frame_values_within_pixel_range
           ["/clips/empty.mp4"; "/clips/dark.mp4"] 85 still_world
           [ValueDict "/clips/empty.mp4" [] 85;
            ValueDict "/clips/dark.mp4" [(561 # 4)%Q; 7%Q] 85]
           (ValueDict "/clips/dark.mp4" [(561 # 4)%Q; 7%Q] 85)
           [[[[0; 0]; [0; 255]]]; [[[7; 7]; [7; 7]]]] 0 255).
  - reflexivity.
  - apply list_elem_of_further, list_elem_of_here.
  - reflexivity.
  - intros fr x Hfr Hx.
    apply elem_of_cons in Hfr as [->|Hfr].
    + simpl in Hx. repeat (apply elem_of_cons in Hx as [->|Hx]; [lia|]).
      by apply elem_of_nil in Hx.
    + apply elem_of_cons in Hfr as [->|Hfr]; [|by apply elem_of_nil in Hfr].
      simpl in Hx. repeat (apply elem_of_cons in Hx as [->|Hx]; [lia|]).
      by apply elem_of_nil in Hx.
  - apply list_elem_of_here.
Defined.

(** X9: the percentile is checked by [np.percentile] alone, one frame at a
    time.  With a percentile outside [0, 100], files without a single frame
    still get their (empty) series, and the run ends with [ValueError] at the
    first file that yields a frame. *)
Theorem get_frame_values_percentile_unchecked still f rest fr frames tail percentile_value w :
  percentile_value < 0 \/ 100 < percentile_value ->
  Forall (fun g => w_ffmpeg w g = Stream [] None) still ->
  w_ffmpeg w f = Stream (fr :: frames) tail ->
  get_frame_values (py_list still) percentile_value w
  = (Ret (map (fun g => ValueDict g [] percentile_value) still), log_reader_calls still w) /\
  get_frame_values (py_list (still ++ f :: rest)) percentile_value w
  = (Raise (ValueError "Percentiles must be in the range [0, 100]"),
     log_reader_calls (still ++ [f]) w).
Proof.
  intros Hq Hstill Hf.
  assert (Hseries : Forall (fun g => series_of w percentile_value g = Ret []) still).
  { eapply Forall_impl; [exact Hstill|]. intros g Hg. unfold series_of. by rewrite Hg. }
  assert (Hall : Forall (fun g => returns (series_of w percentile_value g) = true) still).
  { eapply Forall_impl; [exact Hseries|]. by intros g ->. }
  unfold get_frame_values; simpl. split.
  - rewrite for_fname_all by exact Hall. simpl. do 2 f_equal.
    apply Forall_fmap_ext. eapply Forall_impl; [exact Hseries|].
    intros g Hg. unfold series_dict. by rewrite Hg.
  - apply for_fname_first_failure; [exact Hall|].
    unfold series_of. rewrite Hf. simpl. unfold np_percentile.
    assert (Hrange : ((percentile_value <? 0) || (100 <? percentile_value))%Z = true).
    { apply orb_true_iff. destruct Hq; [left|right]; by apply Z.ltb_lt. }
    by rewrite Hrange.
Qed.

Lemma get_frame_values_percentile_unchecked_witness :
  get_frame_values (py_list ["/clips/empty.mp4"]) 101 still_world
  = (Ret (map (fun g => ValueDict g [] 101) ["/clips/empty.mp4"]),
     log_reader_calls ["/clips/empty.mp4"] still_world) /\
  get_frame_values (py_list (["/clips/empty.mp4"] ++ "/clips/dark.mp4" :: ["/clips/x.mp4"]))
    101 still_world
  = (Raise (ValueError "Percentiles must be in the range [0, 100]"),
     log_reader_calls (["/clips/empty.mp4"] ++ ["/clips/dark.mp4"]) still_world).
Proof.
  apply (get_frame_values_percentile_unchecked
           ["/clips/empty.mp4"] "/clips/dark.mp4" ["/clips/x.mp4"]
           [[[0; 0]; [0; 255]]] [[[[7; 7]; [7; 7]]]] None 101 still_world).
  - right. lia.
  - repeat constructor.
  - reflexivity.
Defined.

(** ** Paths and directories *)







Lemma all_slashes_append s t : all_slashes (s +:+ t) = all_slashes s && all_slashes t.
Proof.
  induction s as [|c s IH]; [reflexivity|].
  rewrite append_cons. simpl. by rewrite IH, andb_assoc.
Qed.



















(** ** plot_frame_values: further properties *)

Section MoreSinks.
Context {float_text : FloatText}.






End MoreSinks.


(** ** main *)

Lemma emit_emit a b w : emit b (emit a w) = printed [a; b] w.
Proof. unfold emit, printed; simpl. by rewrite <- app_assoc. Qed.


Lemma log_printed files lines w :
  log_reader_calls files (printed lines w) = printed lines (log_reader_calls files w).
Proof. reflexivity. Qed.



Section Main.
Context {float_text : FloatText}.

(** [main], step by step: the two lines, the discovery, the extraction,
    and only then the files and the last two lines. *)
Lemma main_run initial_path percentile_value w :
  main initial_path percentile_value w
  = match for_fname (glob_mp4 (main_path initial_path) w) percentile_value []
            (printed [""; "Running..."] w) with
    | (Ret video_data, w') =>
        match plot_frame_values (main_path initial_path) video_data w' with
        | (Ret _, w'') => (Ret tt, printed [""; "Finished!"] w'')
        | (Raise e, w'') => (Raise e, w'')
        end
    | (Raise e, w') => (Raise e, w')
    end.
Proof.
  unfold main, bind, effect, identify_files, get_frame_values. simpl.
  rewrite emit_emit. fold (main_path initial_path).
  change (glob_mp4 (main_path initial_path) (printed [""; "Running..."] w))
    with (glob_mp4 (main_path initial_path) w).
  destruct (for_fname (glob_mp4 (main_path initial_path) w) percentile_value []
              (printed [""; "Running..."] w)) as [[video_data|e] w']; [|reflexivity].
  destruct (plot_frame_values (main_path initial_path) video_data w') as [[[]|e] w''];
    [|reflexivity].
  simpl. by rewrite emit_emit.
Qed.



(** X13: when a discovered file fails, [main] ends with that file's
    exception before anything is written: no .csv and no figure exists for
    any file, also not for those that decoded, and the last two lines are
    not printed. *)
Theorem main_failure_writes_nothing initial_path percentile_value w good bad rest e :
  glob_mp4 (main_path initial_path) w = good ++ bad :: rest ->
  Forall (fun f => returns (series_of w percentile_value f) = true) good ->
  series_of w percentile_value bad = Raise e ->
  main initial_path percentile_value w
  = (Raise e, log_reader_calls (good ++ [bad]) (printed [""; "Running..."] w)) /\
  w_out (snd (main initial_path percentile_value w)) = w_out w /\
  w_stdout (snd (main initial_path percentile_value w)) = w_stdout w ++ [""; "Running..."].
Proof.
  intros Hglob Hgood Hbad.
  assert (Hrun : main initial_path percentile_value w
                 = (Raise e, log_reader_calls (good ++ [bad]) (printed [""; "Running..."] w))).
  { rewrite main_run, Hglob.
    by rewrite (for_fname_first_failure good bad rest percentile_value []
                  (printed [""; "Running..."] w) e). }
  rewrite Hrun. by repeat split.
Qed.


End Main.


Lemma main_failure_writes_nothing_witness :
  @main decimal2_text "/videos" 95 demo_world
  = (Raise (Foreign "OSError"),
     log_reader_calls (["/videos/good1.mp4"] ++ ["/videos/corrupt.mp4"])
       (printed [""; "Running..."] demo_world)) /\
  w_out (snd (@main decimal2_text "/videos" 95 demo_world)) = w_out demo_world /\
  w_stdout (snd (@main decimal2_text "/videos" 95 demo_world))
  = w_stdout demo_world ++ [""; "Running..."].
Proof.
  apply (@main_failure_writes_nothing decimal2_text "/videos" 95 demo_world
           ["/videos/good1.mp4"] "/videos/corrupt.mp4" ["/videos/good2.mp4"]
           (Foreign "OSError")).
  - reflexivity.
  - repeat constructor.
  - reflexivity.
Defined.


